(** * CounterContext: the reducer, the dispatch hook, the context default and
      the two accessor hooks of [src/context/CounterContext.tsx].

    A TypeScript [number] is an IEEE-754 binary64 value; it is embedded as the
    kernel's primitive [float], whose operations are the same binary64
    operations with rounding to nearest, ties to even.  Strings are
    [String.string].  A [throw] is an explicit [Throw] completion. *)

From Stdlib Require Import ZArith Lia String List.
From Stdlib Require Import Floats Uint63.
Import ListNotations.

Local Open Scope Z_scope.

(** ** Completions: a call returns normally or throws *)

Inductive Error : Type :=
| JsError      (* [new Error()] *)
| TypeError.   (* reading a property of [undefined] *)

Inductive completion (A : Type) : Type :=
| Normal (a : A)
| Throw (e : Error).

Arguments Normal {A} a.
Arguments Throw {A} e.

Definition bind {A B : Type} (c : completion A) (k : A -> completion B)
  : completion B :=
  match c with
  | Normal a => k a
  | Throw e => Throw e
  end.

Notation "x <- c ;; k" := (bind c (fun x => k))
  (at level 61, c at next level, right associativity).

(** ** The state and the actions (lines 5-29) *)

Definition number : Type := float.

Record StateType : Type := mkState { count : number; text : string }.

Definition initState : StateType := {| count := 0%float; text := ""%string |}.

(** [const enum REDUCER_ACTION_TYPE]: its members are the numeric constants
    0, 1 and 2; a value of the enum type is a number at run time. *)
Definition REDUCER_ACTION_TYPE : Type := Z.
Definition INCREMENT : REDUCER_ACTION_TYPE := 0.
Definition DECREMENT : REDUCER_ACTION_TYPE := 1.
Definition NEW_INPUT : REDUCER_ACTION_TYPE := 2.

(** [payload?: string]: [None] is the absent (undefined) payload. *)
Record ReducerAction : Type := mkAction
  { type : REDUCER_ACTION_TYPE; payload : option string }.

(** [x ?? d] on an optional string. *)
Definition nullish (x : option string) (d : string) : string :=
  match x with
  | Some s => s
  | None => d
  end.

(** ** The reducer (lines 32-43)

    [{ ...state, count: e }] copies both fields of [state] and overrides
    [count]; likewise for [text]. *)
Definition reducer (state : StateType) (action : ReducerAction)
  : completion StateType :=
  if type action =? INCREMENT then
    Normal {| count := (count state + 1)%float; text := text state |}
  else if type action =? DECREMENT then
    Normal {| count := (count state - 1)%float; text := text state |}
  else if type action =? NEW_INPUT then
    Normal {| count := count state;
              text := nullish (payload action) ""%string |}
  else Throw JsError.

(** ** The dispatch hook (lines 49-63)

    [useReducer(reducer, initState)] keeps one state value; [dispatch(a)]
    replaces it by [reducer(state, a)], and a [throw] of the reducer is not
    caught.  A callback of the hook is described by what one call of it does
    to the state kept by the hook. *)
Definition Callback : Type := StateType -> completion StateType.

Definition dispatch (action : ReducerAction) : Callback :=
  fun state => reducer state action.

Record HTMLInputElement : Type := mkInput { value : string }.
Record ChangeEvent : Type := mkEvent { target : HTMLInputElement }.

(** What a call site hands to [handleTextInput].  The annotation
    [e: ChangeEvent<HTMLInputElement>] is erased at run time: a typed caller
    passes an event, a caller outside the type checker can pass a bare
    string. *)
Inductive Argument : Type :=
| ArgEvent (e : ChangeEvent)
| ArgString (s : string).

(** [e.target.value]: on a string primitive [e.target] is [undefined], and
    reading [.value] of [undefined] throws a TypeError. *)
Definition target_value (e : Argument) : completion string :=
  match e with
  | ArgEvent ev => Normal (value (target ev))
  | ArgString _ => Throw TypeError
  end.

Record UseCounterContextType : Type := mkContext
  { state : StateType;
    increment : Callback;
    decrement : Callback;
    handleTextInput : Argument -> Callback }.

(** The bundle returned by the hook in a render in which the reducer state is
    [cur]; in the first render [cur] is the [initState] argument. *)
Definition useCounterContext (cur : StateType) : UseCounterContextType :=
  {| state := cur;
     increment := dispatch {| type := INCREMENT; payload := None |};
     decrement := dispatch {| type := DECREMENT; payload := None |};
     handleTextInput := fun e st =>
       v <- target_value e ;;
       dispatch {| type := NEW_INPUT; payload := Some v |} st |}.

(** ** The context and its default (lines 82-89) *)

Definition initContextState : UseCounterContextType :=
  {| state := initState;
     increment := fun st => Normal st;
     decrement := fun st => Normal st;
     handleTextInput := fun _ st => Normal st |}.

(** [useContext(CounterContext)]: the value of the nearest provider above the
    consumer, or the default given to [createContext] when there is none. *)
Definition useContext (provider : option UseCounterContextType)
  : UseCounterContextType :=
  match provider with
  | Some v => v
  | None => initContextState
  end.

(** ** The accessor hooks (lines 116-136) *)

Record UseCounterHookType : Type := mkCounterHook
  { hook_count : number;
    hook_increment : Callback;
    hook_decrement : Callback }.

Definition useCounter (provider : option UseCounterContextType)
  : UseCounterHookType :=
  let ctx := useContext provider in
  {| hook_count := count (state ctx);
     hook_increment := increment ctx;
     hook_decrement := decrement ctx |}.

Record UseCounterTextHookType : Type := mkTextHook
  { hook_text : string;
    hook_handleTextInput : Argument -> Callback }.

Definition useCounterText (provider : option UseCounterContextType)
  : UseCounterTextHookType :=
  let ctx := useContext provider in
  {| hook_text := text (state ctx);
     hook_handleTextInput := handleTextInput ctx |}.

(** [n] dispatches of the same action in a row, each on the state left by the
    one before; a throw ends the run. *)
Fixpoint dispatch_n (n : nat) (action : ReducerAction) (st : StateType)
  : completion StateType :=
  match n with
  | O => Normal st
  | S n' => st' <- dispatch action st ;; dispatch_n n' action st'
  end.

(** ** The provider (lines 95-105) *)

Section Provider.

(** React's element type is left abstract. *)
Variable ReactElement : Type.

Record ChildrenType : Type := mkChildren { children : option ReactElement }.

(** [<CounterContext.Provider value={v}>{children}</CounterContext.Provider>] *)
Record ProviderElement : Type := mkProvider
  { provided : UseCounterContextType; nested : option ReactElement }.

(** The props have type [ChildrenType & StateType]; the parameter pattern
    [{ children, ...initState }] splits them into [children] and the rest,
    which is a [StateType] and hides the module constant of the same
    name. *)
Definition CounterProvider (props : ChildrenType) (initState : StateType)
  : ProviderElement :=
  {| provided := useCounterContext initState; nested := children props |}.

(** The props object as it exists at run time, where an attribute that the
    JSX leaves out is an absent property. *)
Record PropsObject : Type := mkProps
  { children_attr : option ReactElement;
    count_attr : option number;
    text_attr : option string }.

(** The object bound to [initState] by the rest pattern: every own property
    of the props other than [children], and nothing else. *)
Record RestObject : Type := mkRest
  { rest_count : option number; rest_text : option string }.

Definition rest_initState (props : PropsObject) : RestObject :=
  {| rest_count := count_attr props; rest_text := text_attr props |}.

(** The props that the type [ChildrenType & StateType] admits: [count] and
    [text] are required, [children] is optional. *)
Definition typed_props (props : PropsObject)
  : option (ChildrenType * StateType) :=
  match rest_count (rest_initState props), rest_text (rest_initState props) with
  | Some c, Some t =>
      Some ({| children := children_attr props |}, {| count := c; text := t |})
  | _, _ => None
  end.

End Provider.

Arguments children {ReactElement} _.
Arguments mkChildren {ReactElement} _.
Arguments provided {ReactElement} _.
Arguments nested {ReactElement} _.
Arguments CounterProvider {ReactElement} props initState.
Arguments mkProps {ReactElement} _ _ _.
Arguments children_attr {ReactElement} _.
Arguments count_attr {ReactElement} _.
Arguments text_attr {ReactElement} _.
Arguments rest_initState {ReactElement} props.
Arguments typed_props {ReactElement} props.

(** ** Integers as numbers

    [number_of_Z z] is the binary64 value of the integer [z], rounded to
    nearest, ties to even: what the literal [z] or [Number(z)] denotes. *)
Definition number_of_Z (z : Z) : number :=
  SF2Prim (binary_normalize prec emax z 0 false).

(** Exponent and 53-bit mantissa of the binary64 value of a positive integer
    [a <= 2^53]. *)
Definition canon_e (a : Z) : Z := Z.log2 a - 52.

Definition canon_m (a : Z) : positive :=
  Z.to_pos (if Z.log2 a <=? 52 then a * 2 ^ (52 - Z.log2 a) else a / 2).

(** The exact value of a number when that value is an integer: the value of
    a finite number with sign [s], mantissa [m] and exponent [e] is
    [(-1)^s * m * 2^e].  Infinities, NaN and fractions have none. *)
Definition integer_value (x : number) : option Z :=
  match Prim2SF x with
  | S754_zero _ => Some 0
  | S754_finite s m e =>
      if 0 <=? e then Some (cond_Zopp s (Z.pos m * 2 ^ e))
      else if Z.pos m mod 2 ^ (- e) =? 0
           then Some (cond_Zopp s (Z.pos m / 2 ^ (- e)))
           else None
  | _ => None
  end.

(** ** Runs of actions and of operations

    [dispatch_all] submits a list of actions in order, each to the state left
    by the one before; a throw ends the run. *)
Fixpoint dispatch_all (actions : list ReducerAction) (st : StateType)
  : completion StateType :=
  match actions with
  | [] => Normal st
  | action :: rest => st' <- dispatch action st ;; dispatch_all rest st'
  end.

(** The three cases of the [switch] other than [default]. *)
Definition known_type (action : ReducerAction) : bool :=
  (type action =? INCREMENT) || (type action =? DECREMENT)
  || (type action =? NEW_INPUT).

Definition is_counter_action (action : ReducerAction) : bool :=
  (type action =? INCREMENT) || (type action =? DECREMENT).

Definition is_text_action (action : ReducerAction) : bool :=
  type action =? NEW_INPUT.

(** What one action makes of the count alone, and of the text alone. *)
Definition count_step (c : number) (action : ReducerAction) : number :=
  if type action =? INCREMENT then (c + 1)%float
  else if type action =? DECREMENT then (c - 1)%float
  else c.

Definition text_step (t : string) (action : ReducerAction) : string :=
  if type action =? NEW_INPUT then nullish (payload action) ""%string else t.

(** Increments minus decrements of a list of actions. *)
Definition net_step (action : ReducerAction) : Z :=
  if type action =? INCREMENT then 1
  else if type action =? DECREMENT then -1
  else 0.

Fixpoint net (actions : list ReducerAction) : Z :=
  match actions with
  | [] => 0
  | action :: rest => net_step action + net rest
  end.

(** A consumer calls the callbacks of the bundle, one call after another;
    every dispatch is followed by a render with the new state, whose bundle
    serves the next call. *)
Inductive Operation : Type :=
| OpIncrement
| OpDecrement
| OpTextInput (e : Argument).

Definition call (ctx : UseCounterContextType) (op : Operation) : Callback :=
  match op with
  | OpIncrement => increment ctx
  | OpDecrement => decrement ctx
  | OpTextInput e => handleTextInput ctx e
  end.

Fixpoint session (ops : list Operation) (st : StateType)
  : completion StateType :=
  match ops with
  | [] => Normal st
  | op :: rest =>
      st' <- call (useCounterContext st) op st ;; session rest st'
  end.

(** The calls that the parameter types of the callbacks admit. *)
Definition typed_op (op : Operation) : bool :=
  match op with
  | OpTextInput (ArgString _) => false
  | _ => true
  end.

(** The action that a call submits; a call with a bare string submits
    none. *)
Definition submitted (op : Operation) : option ReducerAction :=
  match op with
  | OpIncrement => Some {| type := INCREMENT; payload := None |}
  | OpDecrement => Some {| type := DECREMENT; payload := None |}
  | OpTextInput (ArgEvent ev) =>
      Some {| type := NEW_INPUT; payload := Some (value (target ev)) |}
  | OpTextInput (ArgString _) => None
  end.

Fixpoint submitted_all (ops : list Operation) : list ReducerAction :=
  match ops with
  | [] => []
  | op :: rest =>
      match submitted op with
      | Some action => action :: submitted_all rest
      | None => submitted_all rest
      end
  end.

(** The calls that submit a counter step, and the calls of the text
    callback. *)
Definition is_counter_op (op : Operation) : bool :=
  match op with
  | OpIncrement | OpDecrement => true
  | OpTextInput _ => false
  end.

Definition is_text_op (op : Operation) : bool :=
  match op with
  | OpTextInput _ => true
  | _ => false
  end.

(** * Binary64 arithmetic on integers

    The specification of the primitive operations ([add_spec], [sub_spec])
    is in terms of [SpecFloat]; the lemmas below evaluate it on operands
    that are integers of magnitude at most 2^53. *)

Lemma digits2_pos_log2 (m : positive) :
  Z.pos (digits2_pos m) = Z.log2 (Z.pos m) + 1.
Proof.
  induction m as [m IH | m IH | ]; cbn [digits2_pos]; try reflexivity.
  - rewrite Pos2Z.inj_succ, IH.
    change (Z.pos m~1) with (2 * Z.pos m + 1).
    rewrite Z.log2_succ_double by lia. lia.
  - rewrite Pos2Z.inj_succ, IH.
    change (Z.pos m~0) with (2 * Z.pos m).
    rewrite Z.log2_double by lia. lia.
Qed.

Lemma digits2_pos_shift (m M : positive) (j : Z) :
  0 <= j -> Z.pos M = Z.pos m * 2 ^ j ->
  Z.pos (digits2_pos M) = Z.pos (digits2_pos m) + j.
Proof.
  intros Hj HM. rewrite !digits2_pos_log2, HM, Z.log2_mul_pow2 by lia. lia.
Qed.

Lemma iter_pos_nat {A : Type} (f : A -> A) (p : positive) (x : A) :
  iter_pos f p x = Nat.iter (Pos.to_nat p) f x.
Proof.
  revert x. induction p as [p IH | p IH | ]; intro x; cbn [iter_pos].
  - rewrite !IH, Pos2Nat.inj_xI, <- Nat.iter_add, <- Nat.iter_succ_r.
    f_equal. lia.
  - rewrite !IH, Pos2Nat.inj_xO, <- Nat.iter_add. f_equal. lia.
  - reflexivity.
Qed.

Lemma shr_1_iter_exact (n : nat) : forall (m M : positive),
  Z.pos m = Z.pos M * 2 ^ Z.of_nat n ->
  Nat.iter n shr_1 {| shr_m := Z.pos m; shr_r := false; shr_s := false |}
  = {| shr_m := Z.pos M; shr_r := false; shr_s := false |}.
Proof.
  induction n as [ | n IH]; intros m M H.
  - cbn in *. f_equal. lia.
  - rewrite Nat.iter_succ, (IH m (M~0)%positive).
    + reflexivity.
    + rewrite H, Nat2Z.inj_succ, Z.pow_succ_r by lia. lia.
Qed.

Lemma iter_xO_pow2 (m d : positive) :
  Z.pos (Pos.iter xO m d) = Z.pos m * 2 ^ Z.pos d.
Proof.
  change (Pos.iter xO m d) with (shift_pos d m).
  rewrite shift_pos_correct. rewrite Z.pow_pos_fold. lia.
Qed.

Lemma fexp_normal (d : Z) : -1021 <= d -> fexp prec emax d = d - 53.
Proof. unfold fexp, SpecFloat.emin, prec, emax. lia. Qed.

Lemma shr_fexp_canonical (M : positive) (e : Z) :
  Z.pos (digits2_pos M) = 53 -> -1074 <= e ->
  shr_fexp prec emax (Z.pos M) e loc_Exact
  = ({| shr_m := Z.pos M; shr_r := false; shr_s := false |}, e).
Proof.
  intros Hd He. unfold shr_fexp. cbn [Zdigits2 shr_record_of_loc].
  rewrite Hd, fexp_normal by lia.
  replace (53 + e - 53 - e) with 0 by lia. reflexivity.
Qed.

Lemma binary_round_aux_canonical (s : bool) (M : positive) (e : Z) :
  Z.pos (digits2_pos M) = 53 -> -1074 <= e <= 971 ->
  binary_round_aux prec emax s (Z.pos M) e loc_Exact = S754_finite s M e.
Proof.
  intros Hd He. unfold binary_round_aux.
  rewrite shr_fexp_canonical by lia.
  cbn [shr_m loc_of_shr_record round_nearest_even].
  rewrite shr_fexp_canonical by lia. cbn [shr_m].
  replace (e <=? emax - prec) with true; [reflexivity|].
  symmetry. apply Z.leb_le. unfold emax, prec. lia.
Qed.

Lemma binary_round_exact (s : bool) (m M : positive) (e e' : Z) :
  e' = Z.pos (digits2_pos m) + e - 53 ->
  -1074 <= e' <= 971 ->
  (e' <= e -> Z.pos M = Z.pos m * 2 ^ (e - e')) ->
  (e < e' -> Z.pos m = Z.pos M * 2 ^ (e' - e)) ->
  binary_round prec emax s m e = S754_finite s M e'.
Proof.
  intros He' Hr Hle Hlt. unfold binary_round.
  rewrite fexp_normal by lia. rewrite <- He'.
  unfold shl_align.
  destruct (e' - e) as [ | p | p] eqn:Hs.
  - assert (Hee : e' = e) by lia.
    assert (M = m).
    { assert (HM : Z.pos M = Z.pos m * 2 ^ (e - e')) by (apply Hle; lia).
      replace (e - e') with 0 in HM by lia. lia. }
    subst M. rewrite Hee. apply binary_round_aux_canonical; lia.
  - assert (Hm : Z.pos m = Z.pos M * 2 ^ Z.pos p) by (apply Hlt; lia).
    assert (HdM : Z.pos (digits2_pos M) = 53).
    { pose proof (digits2_pos_shift M m (Z.pos p) ltac:(lia) Hm). lia. }
    unfold binary_round_aux.
    unfold shr_fexp at 1. cbn [Zdigits2 shr_record_of_loc].
    rewrite fexp_normal by lia. rewrite <- He', Hs. cbn [shr].
    rewrite iter_pos_nat, (shr_1_iter_exact _ m M)
      by (rewrite positive_nat_Z; exact Hm).
    cbn [shr_m loc_of_shr_record round_nearest_even].
    replace (e + Z.pos p) with e' by lia.
    rewrite shr_fexp_canonical by lia. cbn [shr_m].
    replace (e' <=? emax - prec) with true; [reflexivity|].
    symmetry. apply Z.leb_le. unfold emax, prec. lia.
  - assert (HM : Z.pos M = Z.pos m * 2 ^ Z.pos p).
    { replace (Z.pos p) with (e - e') by lia. apply Hle. lia. }
    assert (Pos.iter xO m p = M) by (pose proof (iter_xO_pow2 m p); lia).
    subst M. apply binary_round_aux_canonical; [|lia].
    pose proof (digits2_pos_shift m _ (Z.pos p) ltac:(lia) HM). lia.
Qed.

Lemma log2_safe (a : Z) : 0 < a <= 2 ^ 53 -> 0 <= Z.log2 a <= 53.
Proof.
  intros [H0 H1]. split; [apply Z.log2_nonneg|].
  rewrite <- (Z.log2_pow2 53) by lia. now apply Z.log2_le_mono.
Qed.

Lemma log2_53 (a : Z) : 0 < a <= 2 ^ 53 -> Z.log2 a = 53 -> a = 2 ^ 53.
Proof.
  intros [H0 H1] Hl. destruct (Z.log2_spec a H0) as [Hlo _].
  rewrite Hl in Hlo. lia.
Qed.

Lemma canon_m_small (a : Z) :
  0 < a -> Z.log2 a <= 52 -> Z.pos (canon_m a) = a * 2 ^ (52 - Z.log2 a).
Proof.
  intros H0 Hl. unfold canon_m.
  destruct (Z.leb_spec (Z.log2 a) 52); [|lia].
  rewrite Z2Pos.id; [reflexivity|].
  apply Z.mul_pos_pos; [lia|]. apply Z.pow_pos_nonneg; lia.
Qed.

Lemma canon_m_top : canon_m (2 ^ 53) = 4503599627370496%positive.
Proof. reflexivity. Qed.

Lemma binary_round_int (s : bool) (a k : Z) (m : positive) :
  0 < a <= 2 ^ 53 -> 0 <= k -> Z.pos m = a * 2 ^ k ->
  binary_round prec emax s m (- k) = S754_finite s (canon_m a) (canon_e a).
Proof.
  intros Ha Hk Hm. pose proof (log2_safe a Ha) as Hl.
  apply binary_round_exact.
  - rewrite digits2_pos_log2, Hm, Z.log2_mul_pow2 by lia. unfold canon_e. lia.
  - unfold canon_e. lia.
  - unfold canon_e. intros Hle.
    rewrite canon_m_small, Hm by lia.
    rewrite <- Z.mul_assoc, <- Z.pow_add_r by lia.
    do 2 f_equal. lia.
  - unfold canon_e. intros Hlt.
    destruct (Z.le_gt_cases (Z.log2 a) 52) as [Hs | Hs].
    + rewrite canon_m_small, Hm by lia.
      rewrite <- Z.mul_assoc, <- Z.pow_add_r by lia.
      do 2 f_equal. lia.
    + assert (Hl53 : Z.log2 a = 53) by lia.
      rewrite (log2_53 a Ha Hl53) in *.
      rewrite canon_m_top, Hm.
      replace (Z.log2 (2 ^ 53) - 52 - - k) with (1 + k) by (rewrite Z.log2_pow2; lia).
      rewrite (Z.pow_add_r 2 1 k) by lia. lia.
Qed.

Lemma binary_normalize_int (z k : Z) :
  z <> 0 -> Z.abs z <= 2 ^ 53 -> 0 <= k ->
  binary_normalize prec emax (z * 2 ^ k) (- k) false
  = S754_finite (z <? 0) (canon_m (Z.abs z)) (canon_e (Z.abs z)).
Proof.
  intros Hz Ha Hk.
  assert (Hp : 0 < 2 ^ k) by (apply Z.pow_pos_nonneg; lia).
  unfold binary_normalize.
  destruct (z * 2 ^ k) as [ | m | m] eqn:Hzk.
  - lia.
  - assert (0 < z) by nia.
    replace (z <? 0) with false by (symmetry; apply Z.ltb_ge; lia).
    apply binary_round_int; [lia | lia | ]. rewrite Z.abs_eq by lia. lia.
  - assert (z < 0) by nia.
    replace (z <? 0) with true by (symmetry; apply Z.ltb_lt; lia).
    apply binary_round_int; [lia | lia | ]. rewrite Z.abs_neq by lia. lia.
Qed.

Lemma canon_digits (a : Z) :
  0 < a <= 2 ^ 53 -> Z.pos (digits2_pos (canon_m a)) = 53.
Proof.
  intros Ha. pose proof (log2_safe a Ha) as Hl.
  destruct (Z.le_gt_cases (Z.log2 a) 52) as [Hs | Hs].
  - rewrite digits2_pos_log2, canon_m_small, Z.log2_mul_pow2 by lia. lia.
  - assert (Hl53 : Z.log2 a = 53) by lia.
    rewrite (log2_53 a Ha Hl53). reflexivity.
Qed.

Lemma binary_normalize_Z (z : Z) :
  z <> 0 -> Z.abs z <= 2 ^ 53 ->
  binary_normalize prec emax z 0 false
  = S754_finite (z <? 0) (canon_m (Z.abs z)) (canon_e (Z.abs z)).
Proof.
  intros Hz Ha. pose proof (binary_normalize_int z 0 Hz Ha (Z.le_refl 0)) as H.
  rewrite Z.pow_0_r, Z.mul_1_r in H. exact H.
Qed.

Lemma Prim2SF_number_of_Z (z : Z) :
  Z.abs z <= 2 ^ 53 ->
  Prim2SF (number_of_Z z) = binary_normalize prec emax z 0 false.
Proof.
  intros Ha. unfold number_of_Z. apply Prim2SF_SF2Prim.
  destruct (Z.eq_dec z 0) as [-> | Hz]; [reflexivity|].
  rewrite binary_normalize_Z by assumption.
  assert (Hp : 0 < Z.abs z <= 2 ^ 53) by lia.
  pose proof (log2_safe _ Hp) as Hl.
  cbn [SpecFloat.valid_binary]. unfold bounded, canonical_mantissa.
  rewrite canon_digits by exact Hp.
  rewrite fexp_normal by (unfold canon_e; lia).
  apply andb_true_intro; split.
  - apply Z.eqb_eq. lia.
  - apply Z.leb_le. unfold canon_e, emax, prec. lia.
Qed.

(** The operand aligned on exponent -52 is the integer scaled by 2^52. *)
Lemma shl_align_canon (a : Z) :
  0 < a <= 2 ^ 53 ->
  Z.pos (fst (shl_align (canon_m a) (canon_e a) (-52))) = a * 2 ^ 52.
Proof.
  intros Ha. pose proof (log2_safe a Ha) as Hl. unfold shl_align.
  destruct (-52 - canon_e a) as [ | p | p] eqn:Hs; cbn [fst].
  - unfold canon_e in Hs. assert (Hl0 : Z.log2 a = 0) by lia.
    rewrite canon_m_small, Hl0 by lia. reflexivity.
  - unfold canon_e in Hs. lia.
  - rewrite iter_xO_pow2. unfold canon_e in Hs.
    destruct (Z.le_gt_cases (Z.log2 a) 52) as [Hsm | Hsm].
    + rewrite canon_m_small by lia.
      rewrite <- Z.mul_assoc, <- Z.pow_add_r by lia. do 2 f_equal. lia.
    + assert (Hl53 : Z.log2 a = 53) by lia.
      rewrite (log2_53 a Ha Hl53) in *. rewrite canon_m_top.
      rewrite Z.log2_pow2 in Hs by lia.
      assert (Z.pos p = 53) by lia. replace (Z.pos p) with 53 by lia. reflexivity.
Qed.

Lemma min_canon_e (a : Z) : 0 < a <= 2 ^ 53 -> Z.min (canon_e a) (-52) = -52.
Proof. intros Ha. pose proof (log2_safe a Ha). unfold canon_e. lia. Qed.

Lemma cond_Zopp_abs (z : Z) : cond_Zopp (z <? 0) (Z.abs z) = z.
Proof. unfold cond_Zopp. destruct (Z.ltb_spec z 0); lia. Qed.

Lemma Prim2SF_one : Prim2SF 1%float = S754_finite false 4503599627370496 (-52).
Proof. reflexivity. Qed.

Lemma binary_normalize_scaled (z : Z) :
  Z.abs z <= 2 ^ 53 ->
  binary_normalize prec emax (z * 2 ^ 52) (-52) false
  = binary_normalize prec emax z 0 false.
Proof.
  intros Ha. destruct (Z.eq_dec z 0) as [-> | Hz]; [reflexivity|].
  rewrite binary_normalize_Z by assumption.
  exact (binary_normalize_int z 52 Hz Ha ltac:(lia)).
Qed.

Lemma number_add_1 (z : Z) :
  - 2 ^ 53 <= z < 2 ^ 53 ->
  (number_of_Z z + 1)%float = number_of_Z (z + 1).
Proof.
  intros Hz. apply Prim2SF_inj.
  rewrite FloatAxioms.add_spec, !Prim2SF_number_of_Z, Prim2SF_one by lia.
  rewrite <- (binary_normalize_scaled (z + 1)) by lia.
  destruct (Z.eq_dec z 0) as [-> | Hnz]; [reflexivity|].
  rewrite binary_normalize_Z by lia.
  assert (Hp : 0 < Z.abs z <= 2 ^ 53) by lia.
  unfold SF64add, SFadd.
  rewrite min_canon_e, shl_align_canon by exact Hp.
  change (fst (shl_align 4503599627370496 (-52) (-52))) with 4503599627370496%positive.
  f_equal.
  change (cond_Zopp (z <? 0) (Z.abs z * 2 ^ 52))
    with (if z <? 0 then - (Z.abs z * 2 ^ 52) else Z.abs z * 2 ^ 52).
  cbn [cond_Zopp].
  destruct (Z.ltb_spec z 0); lia.
Qed.

Lemma number_sub_1 (z : Z) :
  - 2 ^ 53 < z <= 2 ^ 53 ->
  (number_of_Z z - 1)%float = number_of_Z (z - 1).
Proof.
  intros Hz. apply Prim2SF_inj.
  rewrite FloatAxioms.sub_spec, !Prim2SF_number_of_Z, Prim2SF_one by lia.
  rewrite <- (binary_normalize_scaled (z - 1)) by lia.
  destruct (Z.eq_dec z 0) as [-> | Hnz]; [reflexivity|].
  rewrite binary_normalize_Z by lia.
  assert (Hp : 0 < Z.abs z <= 2 ^ 53) by lia.
  unfold SF64sub, SFsub.
  rewrite min_canon_e, shl_align_canon by exact Hp.
  change (fst (shl_align 4503599627370496 (-52) (-52))) with 4503599627370496%positive.
  f_equal.
  change (cond_Zopp (z <? 0) (Z.abs z * 2 ^ 52))
    with (if z <? 0 then - (Z.abs z * 2 ^ 52) else Z.abs z * 2 ^ 52).
  cbn [cond_Zopp].
  destruct (Z.ltb_spec z 0); lia.
Qed.

(** The value of [number_of_Z z] is [z] itself throughout the range. *)
Lemma integer_value_number_of_Z (z : Z) :
  Z.abs z <= 2 ^ 53 -> integer_value (number_of_Z z) = Some z.
Proof.
  intros Ha. unfold integer_value. rewrite Prim2SF_number_of_Z by assumption.
  destruct (Z.eq_dec z 0) as [-> | Hz]; [reflexivity|].
  rewrite binary_normalize_Z by assumption.
  assert (Hp : 0 < Z.abs z <= 2 ^ 53) by lia.
  pose proof (log2_safe _ Hp) as Hl. unfold canon_e.
  destruct (Z.le_gt_cases (Z.log2 (Z.abs z)) 52) as [Hs | Hs].
  - rewrite canon_m_small by lia.
    destruct (Z.leb_spec 0 (Z.log2 (Z.abs z) - 52)) as [H0 | H0].
    + replace (52 - Z.log2 (Z.abs z)) with 0 by lia.
      replace (Z.log2 (Z.abs z) - 52) with 0 by lia.
      rewrite Z.pow_0_r, !Z.mul_1_r. now rewrite cond_Zopp_abs.
    + replace (- (Z.log2 (Z.abs z) - 52)) with (52 - Z.log2 (Z.abs z)) by lia.
      assert (Hpow : 0 < 2 ^ (52 - Z.log2 (Z.abs z)))
        by (apply Z.pow_pos_nonneg; lia).
      rewrite Z.mod_mul, Z.div_mul by lia. cbn [Z.eqb].
      now rewrite cond_Zopp_abs.
  - assert (Hl53 : Z.log2 (Z.abs z) = 53) by lia.
    pose proof (log2_53 _ Hp Hl53) as Habs.
    rewrite Hl53. replace (canon_m (Z.abs z)) with (canon_m (2 ^ 53)) by (now rewrite Habs).
    rewrite canon_m_top.
    change (0 <=? 53 - 52) with true. cbv iota.
    change (4503599627370496 * 2 ^ (53 - 52)) with (2 ^ 53).
    rewrite <- Habs. now rewrite cond_Zopp_abs.
Qed.

(** Distinct integers of the range have distinct numbers. *)
Lemma number_of_Z_inj (a b : Z) :
  Z.abs a <= 2 ^ 53 -> Z.abs b <= 2 ^ 53 ->
  number_of_Z a = number_of_Z b -> a = b.
Proof.
  intros Ha Hb H. apply (f_equal integer_value) in H.
  rewrite !integer_value_number_of_Z in H by assumption.
  now injection H.
Qed.

(** On the non-negative part of the range [number_of_Z] is the primitive
    conversion from integers. *)
Lemma number_of_Z_uint63 (z : Z) :
  0 <= z <= 2 ^ 53 -> number_of_Z z = of_uint63 (Uint63.of_Z z).
Proof.
  intros Hz. apply Prim2SF_inj.
  rewrite Prim2SF_number_of_Z, of_uint63_spec by lia.
  rewrite Uint63.of_Z_spec, Z.mod_small; [reflexivity|].
  change wB with (2 ^ 63). assert (2 ^ 53 < 2 ^ 63) by reflexivity. lia.
Qed.

(** * The reducer on integer counts *)

Lemma reducer_increment_exact (s : StateType) (z : Z) (p : option string) :
  count s = number_of_Z z -> - 2 ^ 53 <= z < 2 ^ 53 ->
  reducer s {| type := INCREMENT; payload := p |}
  = Normal {| count := number_of_Z (z + 1); text := text s |}.
Proof.
  intros Hc Hz. unfold reducer. cbn. now rewrite Hc, number_add_1.
Qed.

Lemma reducer_decrement_exact (s : StateType) (z : Z) (p : option string) :
  count s = number_of_Z z -> - 2 ^ 53 < z <= 2 ^ 53 ->
  reducer s {| type := DECREMENT; payload := p |}
  = Normal {| count := number_of_Z (z - 1); text := text s |}.
Proof.
  intros Hc Hz. unfold reducer. cbn. now rewrite Hc, number_sub_1.
Qed.

Lemma state_eta (s : StateType) (c : number) :
  count s = c -> {| count := c; text := text s |} = s.
Proof. intros <-. now destruct s. Qed.

Lemma dispatch_n_increment (n : nat) : forall (s : StateType) (z : Z) p,
  count s = number_of_Z z -> - 2 ^ 53 <= z -> z + Z.of_nat n <= 2 ^ 53 ->
  dispatch_n n {| type := INCREMENT; payload := p |} s
  = Normal {| count := number_of_Z (z + Z.of_nat n); text := text s |}.
Proof.
  induction n as [ | n IH]; intros s z p Hc Hlo Hhi.
  - cbn [dispatch_n]. rewrite Z.add_0_r. f_equal. symmetry. now apply state_eta.
  - cbn [dispatch_n]. unfold dispatch.
    rewrite (reducer_increment_exact s z p Hc) by lia. cbn [bind].
    rewrite (IH _ (z + 1)) by (cbn [count]; lia || reflexivity).
    cbn [text]. do 3 f_equal. lia.
Qed.

Lemma dispatch_n_decrement (n : nat) : forall (s : StateType) (z : Z) p,
  count s = number_of_Z z -> z <= 2 ^ 53 -> - 2 ^ 53 <= z - Z.of_nat n ->
  dispatch_n n {| type := DECREMENT; payload := p |} s
  = Normal {| count := number_of_Z (z - Z.of_nat n); text := text s |}.
Proof.
  induction n as [ | n IH]; intros s z p Hc Hhi Hlo.
  - cbn [dispatch_n]. rewrite Z.sub_0_r. f_equal. symmetry. now apply state_eta.
  - cbn [dispatch_n]. unfold dispatch.
    rewrite (reducer_decrement_exact s z p Hc) by lia. cbn [bind].
    rewrite (IH _ (z - 1)) by (cbn [count]; lia || reflexivity).
    cbn [text]. do 3 f_equal. lia.
Qed.

(** Two numbers with different [SpecFloat] readings are different. *)
Lemma number_neq (x y : number) : Prim2SF x <> Prim2SF y -> x <> y.
Proof. intros H E. apply H. now rewrite E. Qed.

Lemma normal_count_neq (s t : StateType) :
  count s <> count t -> Normal s <> Normal t.
Proof.
  intros H E. apply H.
  exact (f_equal (fun c => match c with
                           | Normal x => count x
                           | Throw _ => count s
                           end) E).
Qed.

(** * The claims *)

Local Open Scope string_scope.

(** C1: for every state, the reducer on an Increment action returns the state
    with [count + 1] and the same text, on a Decrement action the state with
    [count - 1] and the same text, and on a SetText action with payload [v]
    the state with text [v] and the same count; the result always has both
    fields.  ([+] and [-] are the additions of the source, on numbers.) *)
Theorem reducer_updates_one_field (s : StateType) (p : option string) (v : string) :
  reducer s {| type := INCREMENT; payload := p |}
    = Normal {| count := (count s + 1)%float; text := text s |}
  /\ reducer s {| type := DECREMENT; payload := p |}
    = Normal {| count := (count s - 1)%float; text := text s |}
  /\ reducer s {| type := NEW_INPUT; payload := Some v |}
    = Normal {| count := count s; text := v |}.
Proof. repeat split. Qed.

(** C2: an action whose type is none of INCREMENT, DECREMENT, NEW_INPUT makes
    the reducer throw, in every state: no state is returned, and the dispatch
    that submitted it throws as well. *)
Theorem reducer_unknown_type_throws (s : StateType) (a : ReducerAction) :
  type a <> INCREMENT -> type a <> DECREMENT -> type a <> NEW_INPUT ->
  reducer s a = Throw JsError
  /\ (forall s', reducer s a <> Normal s')
  /\ dispatch a s = Throw JsError.
Proof.
  intros Hi Hd Hn.
  assert (H : reducer s a = Throw JsError).
  { unfold reducer.
    destruct (Z.eqb_spec (type a) INCREMENT); [contradiction|].
    destruct (Z.eqb_spec (type a) DECREMENT); [contradiction|].
    destruct (Z.eqb_spec (type a) NEW_INPUT); [contradiction|].
    reflexivity. }
  repeat split; try exact H.
  intros s' E. rewrite H in E. discriminate E.
Qed.

Lemma reducer_unknown_type_throws_witness :
  reducer initState {| type := 3; payload := Some "x" |} = Throw JsError
  /\ (forall s', reducer initState {| type := 3; payload := Some "x" |} <> Normal s')
  /\ dispatch {| type := 3; payload := Some "x" |} initState = Throw JsError.
Proof.
  apply (reducer_unknown_type_throws initState {| type := 3; payload := Some "x" |});
    cbn; discriminate.
Defined.

(** C3 (as the code has it): the provider applies no defaults.  Its initial
    state is exactly the [count] and [text] of its props, which the props
    type requires; only [children] is optional.  For a props object, either
    both fields are there and they are the provider's state, or one is left
    out, it stays absent in the object handed to the reducer hook, and the
    props type does not admit the props. *)
Theorem provider_state_is_props {E : Type} (c : ChildrenType E)
    (s : StateType) (props : PropsObject E) :
  state (provided (CounterProvider c s)) = s
  /\ nested (CounterProvider c s) = children c
  /\ hook_count (useCounter (Some (provided (CounterProvider c s)))) = count s
  /\ hook_text (useCounterText (Some (provided (CounterProvider c s)))) = text s
  /\ rest_initState props = mkRest (count_attr props) (text_attr props)
  /\ match typed_props props with
     | Some (c', s') =>
         count_attr props = Some (count s')
         /\ text_attr props = Some (text s')
         /\ children c' = children_attr props
         /\ state (provided (CounterProvider c' s')) = s'
     | None => count_attr props = None \/ text_attr props = None
     end.
Proof.
  repeat split; try reflexivity.
  unfold typed_props, rest_initState. cbn.
  destruct (count_attr props), (text_attr props); cbn; auto.
Qed.

(** C3, counterexample: with [count] and [text] both left out, the object
    handed to the reducer hook has neither field (not 0 and the empty
    string), and the props are outside the props type. *)
Lemma provider_applies_no_defaults :
  let props : PropsObject unit := mkProps None None None in
  rest_count (rest_initState props) = None
  /\ rest_text (rest_initState props) = None
  /\ rest_count (rest_initState props) <> Some (count initState)
  /\ rest_text (rest_initState props) <> Some (text initState)
  /\ typed_props props = None.
Proof. cbn. repeat split; discriminate. Qed.

(** C4 (as the code has it): the count is a binary64 number with initial
    value 0 and no clamping.  On a state whose count is the integer [z],
    Increment yields the number whose value is exactly [z + 1] when
    [-2^53 <= z < 2^53], and Decrement the number whose value is exactly
    [z - 1] when [-2^53 < z <= 2^53]. *)
Theorem count_steps_by_one_in_safe_range (s : StateType) (z : Z) (p : option string) :
  count s = number_of_Z z ->
  integer_value (count initState) = Some 0
  /\ (- 2 ^ 53 <= z < 2 ^ 53 ->
      integer_value (count s) = Some z
      /\ reducer s {| type := INCREMENT; payload := p |}
         = Normal {| count := number_of_Z (z + 1); text := text s |}
      /\ integer_value (number_of_Z (z + 1)) = Some (z + 1))
  /\ (- 2 ^ 53 < z <= 2 ^ 53 ->
      integer_value (count s) = Some z
      /\ reducer s {| type := DECREMENT; payload := p |}
         = Normal {| count := number_of_Z (z - 1); text := text s |}
      /\ integer_value (number_of_Z (z - 1)) = Some (z - 1)).
Proof.
  intros Hc. split; [reflexivity|]. split; intros Hz; repeat split.
  - rewrite Hc. apply integer_value_number_of_Z. lia.
  - now apply reducer_increment_exact.
  - apply integer_value_number_of_Z. lia.
  - rewrite Hc. apply integer_value_number_of_Z. lia.
  - now apply reducer_decrement_exact.
  - apply integer_value_number_of_Z. lia.
Qed.

Lemma count_steps_by_one_in_safe_range_witness :
  let s := {| count := 41%float; text := "a" |} in
  reducer s {| type := INCREMENT; payload := None |}
    = Normal {| count := 42%float; text := "a" |}
  /\ reducer s {| type := DECREMENT; payload := None |}
    = Normal {| count := 40%float; text := "a" |}.
Proof.
  pose proof (count_steps_by_one_in_safe_range
                {| count := 41%float; text := "a" |} 41 None eq_refl)
    as [_ [Hi Hd]].
  split.
  - exact (proj1 (proj2 (Hi ltac:(lia)))).
  - exact (proj1 (proj2 (Hd ltac:(lia)))).
Defined.

(** C4, counterexample: at the integer count 2^53 Increment returns the same
    state, and at -2^53 so does Decrement: the value of the count does not
    change by one. *)
Lemma increment_saturates_at_2_53 :
  let hi := {| count := 9007199254740992%float; text := "" |} in
  let lo := {| count := (-9007199254740992)%float; text := "" |} in
  integer_value (count hi) = Some (2 ^ 53)
  /\ reducer hi {| type := INCREMENT; payload := None |} = Normal hi
  /\ integer_value (count lo) = Some (- 2 ^ 53)
  /\ reducer lo {| type := DECREMENT; payload := None |} = Normal lo.
Proof. cbv zeta. repeat split. Qed.

(** C5 (as the code has it): the text accessor returns [handleTextInput],
    which takes a change event.  Called with an event whose [target.value] is
    [v] it submits the NEW_INPUT action with payload [v], which leaves the
    state with text [v] and the same count, and the accessor of the next
    render reads [v]. *)
Theorem handleTextInput_sets_text (s : StateType) (ev : ChangeEvent) :
  let h := useCounterText (Some (useCounterContext s)) in
  let v := value (target ev) in
  let s' := {| count := count s; text := v |} in
  hook_text h = text s
  /\ hook_handleTextInput h (ArgEvent ev) s
     = dispatch {| type := NEW_INPUT; payload := Some v |} s
  /\ hook_handleTextInput h (ArgEvent ev) s = Normal s'
  /\ hook_text (useCounterText (Some (useCounterContext s'))) = v.
Proof. cbv zeta. repeat split. Qed.

(** C5, counterexample: handed the new text itself, a string, the operation
    throws a TypeError and no state is produced. *)
Lemma handleTextInput_rejects_string :
  hook_handleTextInput (useCounterText (Some (useCounterContext initState)))
    (ArgString "abc") initState
  = Throw TypeError.
Proof. reflexivity. Qed.

(** C6 (as the code has it): on a state whose count is the integer [z], [n]
    Increments in a row yield the integer [z + n] when [-2^53 <= z] and
    [z + n <= 2^53], and [n] Decrements the integer [z - n] when [z <= 2^53]
    and [-2^53 <= z - n]; the text is unchanged. *)
Theorem repeated_steps_in_safe_range (s : StateType) (z : Z) (n : nat)
    (p : option string) :
  count s = number_of_Z z ->
  (- 2 ^ 53 <= z -> z + Z.of_nat n <= 2 ^ 53 ->
   dispatch_n n {| type := INCREMENT; payload := p |} s
   = Normal {| count := number_of_Z (z + Z.of_nat n); text := text s |})
  /\ (z <= 2 ^ 53 -> - 2 ^ 53 <= z - Z.of_nat n ->
      dispatch_n n {| type := DECREMENT; payload := p |} s
      = Normal {| count := number_of_Z (z - Z.of_nat n); text := text s |}).
Proof.
  intros Hc. split; intros H1 H2.
  - now apply dispatch_n_increment.
  - now apply dispatch_n_decrement.
Qed.

Lemma repeated_steps_in_safe_range_witness :
  let s := {| count := 5%float; text := "a" |} in
  dispatch_n 3 {| type := INCREMENT; payload := None |} s
    = Normal {| count := 8%float; text := "a" |}
  /\ dispatch_n 3 {| type := DECREMENT; payload := None |} s
    = Normal {| count := 2%float; text := "a" |}.
Proof.
  pose proof (repeated_steps_in_safe_range
                {| count := 5%float; text := "a" |} 5 3 None eq_refl)
    as [Hi Hd].
  split.
  - exact (Hi ltac:(lia) ltac:(cbn; lia)).
  - exact (Hd ltac:(lia) ltac:(cbn; lia)).
Defined.

(** C6, counterexample: from the integer count 2^53 two Increments leave the
    count at 2^53, although 2^53 + 2 is the value of a number of its own. *)
Lemma two_increments_lost_at_2_53 :
  let s := {| count := 9007199254740992%float; text := "" |} in
  integer_value (count s) = Some (2 ^ 53)
  /\ dispatch_n 2 {| type := INCREMENT; payload := None |} s = Normal s
  /\ integer_value 9007199254740994%float = Some (2 ^ 53 + 2)
  /\ count s <> 9007199254740994%float.
Proof.
  cbv zeta. repeat split.
  apply number_neq. vm_compute. discriminate.
Qed.

(** C7: for every state and every payload (a string, the empty string
    included, or none), the SetText action applied twice in a row leaves the
    same state as applied once. *)
Theorem set_text_idempotent (s : StateType) (v : option string) :
  let a := {| type := NEW_INPUT; payload := v |} in
  (s1 <- reducer s a ;; reducer s1 a) = reducer s a
  /\ dispatch_n 2 a s = dispatch_n 1 a s.
Proof. cbv zeta. split; reflexivity. Qed.

(** C8: a SetText action without payload is not an error: in every state the
    reducer returns the state with the empty string as text and the same
    count. *)
Theorem absent_payload_is_empty_text (s : StateType) :
  reducer s {| type := NEW_INPUT; payload := None |}
  = Normal {| count := count s; text := "" |}.
Proof. reflexivity. Qed.

(** C9: the default value of the context has the module defaults as state
    (count 0, empty text) and operations that return the state they are given
    unchanged, whatever their argument; a consumer without provider gets this
    value from both accessors, and none of its operations throws. *)
Theorem default_context_is_inert (st : StateType) (e : Argument) :
  state initContextState = {| count := 0%float; text := "" |}
  /\ increment initContextState st = Normal st
  /\ decrement initContextState st = Normal st
  /\ handleTextInput initContextState e st = Normal st
  /\ useContext None = initContextState
  /\ hook_count (useCounter None) = 0%float
  /\ hook_increment (useCounter None) st = Normal st
  /\ hook_decrement (useCounter None) st = Normal st
  /\ hook_text (useCounterText None) = ""
  /\ hook_handleTextInput (useCounterText None) e st = Normal st.
Proof. repeat split. Qed.

(** C10 (as the code has it): on a state whose count is the integer [z],
    Increment followed by Decrement returns the state itself when
    [-2^53 <= z < 2^53], and Decrement followed by Increment when
    [-2^53 < z <= 2^53]. *)
Theorem increment_decrement_inverse_in_safe_range (s : StateType) (z : Z)
    (p q : option string) :
  count s = number_of_Z z ->
  (- 2 ^ 53 <= z < 2 ^ 53 ->
   (s1 <- reducer s {| type := INCREMENT; payload := p |} ;;
    reducer s1 {| type := DECREMENT; payload := q |}) = Normal s)
  /\ (- 2 ^ 53 < z <= 2 ^ 53 ->
      (s1 <- reducer s {| type := DECREMENT; payload := p |} ;;
       reducer s1 {| type := INCREMENT; payload := q |}) = Normal s).
Proof.
  intros Hc. split; intros Hz.
  - rewrite (reducer_increment_exact s z p Hc Hz). cbn [bind].
    rewrite (reducer_decrement_exact _ (z + 1) q) by (reflexivity || lia).
    cbn [text]. f_equal. apply state_eta. rewrite Hc. f_equal. lia.
  - rewrite (reducer_decrement_exact s z p Hc Hz). cbn [bind].
    rewrite (reducer_increment_exact _ (z - 1) q) by (reflexivity || lia).
    cbn [text]. f_equal. apply state_eta. rewrite Hc. f_equal. lia.
Qed.

Lemma increment_decrement_inverse_in_safe_range_witness :
  let s := {| count := 7%float; text := "abc" |} in
  (s1 <- reducer s {| type := INCREMENT; payload := None |} ;;
   reducer s1 {| type := DECREMENT; payload := None |}) = Normal s
  /\ (s1 <- reducer s {| type := DECREMENT; payload := None |} ;;
      reducer s1 {| type := INCREMENT; payload := None |}) = Normal s.
Proof.
  pose proof (increment_decrement_inverse_in_safe_range
                {| count := 7%float; text := "abc" |} 7 None None eq_refl)
    as [Hi Hd].
  split.
  - exact (Hi ltac:(lia)).
  - exact (Hd ltac:(lia)).
Defined.

(** C10, counterexample: from the integer count 2^53, Increment and then
    Decrement end at 2^53 - 1, and from -2^53, Decrement and then Increment
    end at -2^53 + 1: neither returns the state it started from. *)
Lemma increment_decrement_not_inverse_at_2_53 :
  let hi := {| count := 9007199254740992%float; text := "" |} in
  let lo := {| count := (-9007199254740992)%float; text := "" |} in
  (s1 <- reducer hi {| type := INCREMENT; payload := None |} ;;
   reducer s1 {| type := DECREMENT; payload := None |})
  = Normal {| count := 9007199254740991%float; text := "" |}
  /\ (s1 <- reducer hi {| type := INCREMENT; payload := None |} ;;
      reducer s1 {| type := DECREMENT; payload := None |}) <> Normal hi
  /\ (s1 <- reducer lo {| type := DECREMENT; payload := None |} ;;
      reducer s1 {| type := INCREMENT; payload := None |})
     = Normal {| count := (-9007199254740991)%float; text := "" |}
  /\ (s1 <- reducer lo {| type := DECREMENT; payload := None |} ;;
      reducer s1 {| type := INCREMENT; payload := None |}) <> Normal lo.
Proof.
  cbv zeta. repeat split.
  - apply normal_count_neq, number_neq. vm_compute. discriminate.
  - apply normal_count_neq, number_neq. vm_compute. discriminate.
Qed.

(** * Runs of actions *)

Local Open Scope Z_scope.

Lemma reducer_known (s : StateType) (a : ReducerAction) :
  known_type a = true ->
  reducer s a = Normal {| count := count_step (count s) a;
                          text := text_step (text s) a |}.
Proof.
  unfold known_type, reducer, count_step, text_step. intros H.
  destruct (Z.eqb_spec (type a) INCREMENT) as [Ei | Ni].
  - rewrite Ei. reflexivity.
  - destruct (Z.eqb_spec (type a) DECREMENT) as [Ed | Nd].
    + rewrite Ed. reflexivity.
    + destruct (Z.eqb_spec (type a) NEW_INPUT) as [En | Nn].
      * reflexivity.
      * discriminate H.
Qed.

Lemma reducer_unknown (s : StateType) (a : ReducerAction) :
  known_type a = false -> reducer s a = Throw JsError.
Proof.
  unfold known_type, reducer. intros H.
  destruct (type a =? INCREMENT); [discriminate H|].
  destruct (type a =? DECREMENT); [discriminate H|].
  destruct (type a =? NEW_INPUT); [discriminate H|]. reflexivity.
Qed.

Lemma dispatch_all_known (l : list ReducerAction) : forall s,
  forallb known_type l = true ->
  dispatch_all l s = Normal {| count := fold_left count_step l (count s);
                               text := fold_left text_step l (text s) |}.
Proof.
  induction l as [ | a l IH]; intros s H.
  - now destruct s.
  - cbn [forallb] in H. apply andb_prop in H as [Ha Hl].
    cbn [dispatch_all fold_left]. unfold dispatch.
    rewrite (reducer_known s a Ha). cbn [bind]. now rewrite IH.
Qed.

Lemma dispatch_all_unknown (l : list ReducerAction) : forall s,
  forallb known_type l = false -> dispatch_all l s = Throw JsError.
Proof.
  induction l as [ | a l IH]; intros s H; [discriminate H|].
  cbn [forallb] in H. cbn [dispatch_all]. unfold dispatch.
  destruct (known_type a) eqn:Ha.
  - rewrite (reducer_known s a Ha). cbn [bind]. now apply IH.
  - now rewrite (reducer_unknown s a Ha).
Qed.

Lemma count_step_other (c : number) (a : ReducerAction) :
  is_counter_action a = false -> count_step c a = c.
Proof.
  unfold is_counter_action, count_step. intros H.
  destruct (type a =? INCREMENT); [discriminate H|].
  destruct (type a =? DECREMENT); [discriminate H|]. reflexivity.
Qed.

Lemma text_step_other (t : string) (a : ReducerAction) :
  is_text_action a = false -> text_step t a = t.
Proof. unfold is_text_action, text_step. now intros ->. Qed.

Lemma fold_count_filter (l : list ReducerAction) : forall c,
  fold_left count_step l c
  = fold_left count_step (filter is_counter_action l) c.
Proof.
  induction l as [ | a l IH]; intros c; [reflexivity|].
  cbn [filter fold_left]. destruct (is_counter_action a) eqn:Ha.
  - cbn [fold_left]. apply IH.
  - rewrite count_step_other by exact Ha. apply IH.
Qed.

Lemma fold_text_filter (l : list ReducerAction) : forall t,
  fold_left text_step l t = fold_left text_step (filter is_text_action l) t.
Proof.
  induction l as [ | a l IH]; intros t; [reflexivity|].
  cbn [filter fold_left]. destruct (is_text_action a) eqn:Ha.
  - cbn [fold_left]. apply IH.
  - rewrite text_step_other by exact Ha. apply IH.
Qed.

(** X1: a list of actions submitted in order either contains an action of
    unknown type, and the run throws, or it returns the state whose count is
    the count steps of the list folded over the count alone and whose text is
    the text updates folded over the text alone. *)
Theorem dispatch_all_two_folds_or_throw (l : list ReducerAction) (s : StateType) :
  dispatch_all l s
  = if forallb known_type l
    then Normal {| count := fold_left count_step l (count s);
                   text := fold_left text_step l (text s) |}
    else Throw JsError.
Proof.
  destruct (forallb known_type l) eqn:H.
  - now apply dispatch_all_known.
  - now apply dispatch_all_unknown.
Qed.

(** X2: two lists of known actions with the same counter steps in the same
    order and the same text updates in the same order leave the same state,
    however the two kinds are interleaved. *)
Theorem counter_and_text_actions_interleave (l1 l2 : list ReducerAction)
    (s : StateType) :
  forallb known_type l1 = true -> forallb known_type l2 = true ->
  filter is_counter_action l1 = filter is_counter_action l2 ->
  filter is_text_action l1 = filter is_text_action l2 ->
  dispatch_all l1 s = dispatch_all l2 s.
Proof.
  intros H1 H2 Hc Ht.
  rewrite (dispatch_all_known l1 s H1), (dispatch_all_known l2 s H2).
  rewrite (fold_count_filter l1), (fold_count_filter l2), Hc.
  rewrite (fold_text_filter l1), (fold_text_filter l2), Ht. reflexivity.
Qed.

Lemma counter_and_text_actions_interleave_witness :
  let inc := {| type := INCREMENT; payload := None |} in
  let dec := {| type := DECREMENT; payload := None |} in
  let set := {| type := NEW_INPUT; payload := Some "abc"%string |} in
  let s := {| count := 3%float; text := "x"%string |} in
  dispatch_all [set; inc; dec; inc] s = dispatch_all [inc; dec; set; inc] s.
Proof.
  apply counter_and_text_actions_interleave; reflexivity.
Defined.

Lemma abs_step (z : Z) (a : ReducerAction) : Z.abs (z + net_step a) <= Z.abs z + 1.
Proof.
  unfold net_step. destruct (type a =? INCREMENT); [lia|].
  destruct (type a =? DECREMENT); lia.
Qed.

Lemma count_step_exact (z : Z) (a : ReducerAction) :
  Z.abs z < 2 ^ 53 ->
  count_step (number_of_Z z) a = number_of_Z (z + net_step a).
Proof.
  intros Hz. unfold count_step, net_step.
  destruct (type a =? INCREMENT); [apply number_add_1; lia|].
  destruct (type a =? DECREMENT).
  - rewrite number_sub_1 by lia. f_equal.
  - now rewrite Z.add_0_r.
Qed.

Lemma fold_count_net (l : list ReducerAction) : forall z,
  Z.abs z + Z.of_nat (List.length l) <= 2 ^ 53 ->
  fold_left count_step l (number_of_Z z) = number_of_Z (z + net l).
Proof.
  induction l as [ | a l IH]; intros z Hz.
  - cbn. now rewrite Z.add_0_r.
  - cbn [fold_left net]. cbn [List.length] in Hz.
    rewrite count_step_exact by lia.
    pose proof (abs_step z a).
    rewrite IH by lia. f_equal. lia.
Qed.

(** X3: on a state whose count is the integer [z], a list of known actions
    that is short enough to stay within [-2^53, 2^53] leaves the count at
    exactly [z] plus the number of Increments minus the number of
    Decrements. *)
Theorem count_is_net_of_steps (l : list ReducerAction) (s : StateType) (z : Z) :
  count s = number_of_Z z ->
  forallb known_type l = true ->
  Z.abs z + Z.of_nat (List.length l) <= 2 ^ 53 ->
  dispatch_all l s
  = Normal {| count := number_of_Z (z + net l);
              text := fold_left text_step l (text s) |}
  /\ integer_value (number_of_Z (z + net l)) = Some (z + net l).
Proof.
  intros Hc Hk Hz. split.
  - rewrite (dispatch_all_known l s Hk), Hc, fold_count_net by exact Hz.
    reflexivity.
  - apply integer_value_number_of_Z.
    assert (Hn : forall l', Z.abs (net l') <= Z.of_nat (List.length l')).
    { induction l' as [ | a l' IH]; [cbn; lia|].
      cbn [net List.length]. pose proof (abs_step 0 a). lia. }
    specialize (Hn l). lia.
Qed.

Lemma count_is_net_of_steps_witness :
  let inc := {| type := INCREMENT; payload := None |} in
  let dec := {| type := DECREMENT; payload := None |} in
  let set := {| type := NEW_INPUT; payload := Some "abc"%string |} in
  dispatch_all [dec; dec; set; inc; dec] {| count := 1%float; text := ""%string |}
  = Normal {| count := (-1)%float; text := "abc"%string |}.
Proof.
  exact (proj1 (count_is_net_of_steps
                  [ {| type := DECREMENT; payload := None |};
                    {| type := DECREMENT; payload := None |};
                    {| type := NEW_INPUT; payload := Some "abc"%string |};
                    {| type := INCREMENT; payload := None |};
                    {| type := DECREMENT; payload := None |} ]
                  {| count := 1%float; text := ""%string |} 1
                  eq_refl eq_refl ltac:(cbn; lia))).
Defined.

Lemma dispatch_n_add (a b : nat) (act : ReducerAction) : forall s,
  dispatch_n (a + b) act s = (s' <- dispatch_n a act s ;; dispatch_n b act s').
Proof.
  induction a as [ | a IH]; intros s; [reflexivity|].
  cbn [Nat.add dispatch_n]. destruct (dispatch act s) as [s1 | e]; cbn [bind].
  - apply IH.
  - reflexivity.
Qed.

Lemma increment_stuck (n : nat) (p : option string) : forall s,
  count s = number_of_Z (2 ^ 53) ->
  dispatch_n n {| type := INCREMENT; payload := p |} s = Normal s.
Proof.
  induction n as [ | n IH]; intros s Hc; [reflexivity|].
  cbn [dispatch_n]. unfold dispatch, reducer. cbn [type Z.eqb INCREMENT bind].
  assert (Hs : {| count := (count s + 1)%float; text := text s |} = s).
  { apply state_eta. rewrite Hc. reflexivity. }
  rewrite Hs. now apply IH.
Qed.

Lemma decrement_stuck (n : nat) (p : option string) : forall s,
  count s = number_of_Z (- 2 ^ 53) ->
  dispatch_n n {| type := DECREMENT; payload := p |} s = Normal s.
Proof.
  induction n as [ | n IH]; intros s Hc; [reflexivity|].
  cbn [dispatch_n]. unfold dispatch, reducer.
  cbn [type Z.eqb INCREMENT DECREMENT bind].
  assert (Hs : {| count := (count s - 1)%float; text := text s |} = s).
  { apply state_eta. rewrite Hc. reflexivity. }
  rewrite Hs. now apply IH.
Qed.

(** X4: from an integer count [z] in [-2^53, 2^53], [n] Increments end at
    [min (z + n) 2^53] and [n] Decrements at [max (z - n) (-2^53)]: the
    counter stops at the two ends of the range and never throws. *)
Theorem repeated_steps_saturate (s : StateType) (z : Z) (n : nat)
    (p : option string) :
  count s = number_of_Z z -> - 2 ^ 53 <= z <= 2 ^ 53 ->
  dispatch_n n {| type := INCREMENT; payload := p |} s
  = Normal {| count := number_of_Z (Z.min (z + Z.of_nat n) (2 ^ 53));
              text := text s |}
  /\ dispatch_n n {| type := DECREMENT; payload := p |} s
     = Normal {| count := number_of_Z (Z.max (z - Z.of_nat n) (- 2 ^ 53));
                 text := text s |}.
Proof.
  intros Hc Hz. split.
  - destruct (Z.le_gt_cases (z + Z.of_nat n) (2 ^ 53)) as [Hle | Hgt].
    + rewrite Z.min_l by exact Hle. apply dispatch_n_increment; [exact Hc | lia | lia].
    + rewrite Z.min_r by lia.
      assert (Hk : exists k, Z.of_nat k = 2 ^ 53 - z)
        by (exists (Z.to_nat (2 ^ 53 - z)); apply Z2Nat.id; lia).
      destruct Hk as [k Hk].
      replace n with (k + (n - k))%nat by lia.
      rewrite dispatch_n_add.
      rewrite (dispatch_n_increment k s z p Hc) by lia.
      cbn [bind]. replace (z + Z.of_nat k) with (2 ^ 53) by lia.
      apply increment_stuck. reflexivity.
  - destruct (Z.le_gt_cases (- 2 ^ 53) (z - Z.of_nat n)) as [Hle | Hgt].
    + rewrite Z.max_l by exact Hle. apply dispatch_n_decrement; [exact Hc | lia | lia].
    + rewrite Z.max_r by lia.
      assert (Hk : exists k, Z.of_nat k = z + 2 ^ 53)
        by (exists (Z.to_nat (z + 2 ^ 53)); apply Z2Nat.id; lia).
      destruct Hk as [k Hk].
      replace n with (k + (n - k))%nat by lia.
      rewrite dispatch_n_add.
      rewrite (dispatch_n_decrement k s z p Hc) by lia.
      cbn [bind]. replace (z - Z.of_nat k) with (- 2 ^ 53) by lia.
      apply decrement_stuck. reflexivity.
Qed.

Lemma repeated_steps_saturate_witness :
  let s := {| count := 9007199254740990%float; text := "a"%string |} in
  dispatch_n 5 {| type := INCREMENT; payload := None |} s
  = Normal {| count := 9007199254740992%float; text := "a"%string |}
  /\ dispatch_n 5 {| type := DECREMENT; payload := None |} s
     = Normal {| count := 9007199254740985%float; text := "a"%string |}.
Proof.
  exact (repeated_steps_saturate
           {| count := 9007199254740990%float; text := "a"%string |}
           9007199254740990 5 None eq_refl ltac:(lia)).
Defined.

(** ** Counts that are not finite *)

Lemma SFeqb_refl_false (x : spec_float) : SFeqb x x = false -> x = S754_nan.
Proof.
  unfold SFeqb. destruct x as [b | b | | b m e]; cbn; try (destruct b; discriminate).
  - reflexivity.
  - rewrite Z.compare_refl, Pos.compare_cont_refl. destruct b; discriminate.
Qed.

Lemma is_nan_eq (c : number) : is_nan c = true -> c = nan.
Proof.
  unfold is_nan. rewrite FloatAxioms.eqb_spec. intros H.
  apply Bool.negb_true_iff, SFeqb_refl_false in H.
  rewrite <- (SF2Prim_Prim2SF c), H. reflexivity.
Qed.

Lemma is_infinity_eq (c : number) :
  is_infinity c = true -> c = infinity \/ c = neg_infinity.
Proof.
  unfold is_infinity. rewrite FloatAxioms.eqb_spec, abs_spec.
  change (Prim2SF infinity) with (S754_infinity false). intros H.
  rewrite <- (SF2Prim_Prim2SF c).
  destruct (Prim2SF c) as [b | b | | b m e]; try discriminate H.
  destruct b; [right | left]; reflexivity.
Qed.

Lemma non_finite_cases (c : number) :
  is_finite c = false -> c = nan \/ c = infinity \/ c = neg_infinity.
Proof.
  unfold is_finite. intros H. apply Bool.negb_false_iff, Bool.orb_true_iff in H.
  destruct H as [H | H].
  - left. now apply is_nan_eq.
  - right. now apply is_infinity_eq.
Qed.

Lemma non_finite_count_step (c : number) (a : ReducerAction) :
  is_finite c = false -> count_step c a = c.
Proof.
  intros H. unfold count_step.
  destruct (non_finite_cases c H) as [-> | [-> | ->]];
    destruct (type a =? INCREMENT), (type a =? DECREMENT); reflexivity.
Qed.

Lemma non_finite_fold (l : list ReducerAction) (c : number) :
  is_finite c = false -> fold_left count_step l c = c.
Proof.
  intros H. induction l as [ | a l IH]; [reflexivity|].
  cbn [fold_left]. now rewrite non_finite_count_step.
Qed.

(** X5: when the count is NaN or an infinity, no list of known actions
    changes it; the text is still updated. *)
Theorem non_finite_count_is_absorbing (l : list ReducerAction) (s : StateType) :
  is_finite (count s) = false -> forallb known_type l = true ->
  dispatch_all l s
  = Normal {| count := count s; text := fold_left text_step l (text s) |}.
Proof.
  intros Hf Hk. rewrite (dispatch_all_known l s Hk).
  now rewrite non_finite_fold.
Qed.

Lemma non_finite_count_is_absorbing_witness :
  dispatch_all [ {| type := DECREMENT; payload := None |};
                 {| type := NEW_INPUT; payload := Some "n"%string |};
                 {| type := INCREMENT; payload := None |} ]
               {| count := nan; text := ""%string |}
  = Normal {| count := nan; text := "n"%string |}.
Proof.
  exact (non_finite_count_is_absorbing
           [ {| type := DECREMENT; payload := None |};
             {| type := NEW_INPUT; payload := Some "n"%string |};
             {| type := INCREMENT; payload := None |} ]
           {| count := nan; text := ""%string |} eq_refl eq_refl).
Defined.

(** ** Calls through the callbacks *)

Lemma call_submitted (cur st : StateType) (op : Operation) :
  call (useCounterContext cur) op st
  = match submitted op with
    | Some a => dispatch a st
    | None => Throw TypeError
    end.
Proof. destruct op as [ | | [ev | str]]; reflexivity. Qed.

Lemma submitted_known (op : Operation) (a : ReducerAction) :
  submitted op = Some a -> known_type a = true.
Proof.
  destruct op as [ | | [ev | str]]; cbn; intros H;
    try discriminate H; injection H as <-; reflexivity.
Qed.

Lemma submitted_typed (op : Operation) :
  typed_op op = true <-> submitted op <> None.
Proof.
  destruct op as [ | | [ev | str]]; cbn; split; intros H;
    try reflexivity; try discriminate; try (exfalso; now apply H).
Qed.

Lemma submitted_all_known (ops : list Operation) :
  forallb known_type (submitted_all ops) = true.
Proof.
  induction ops as [ | op ops IH]; [reflexivity|]. cbn [submitted_all].
  destruct (submitted op) as [a | ] eqn:Ha; [|exact IH].
  cbn [forallb]. now rewrite (submitted_known op a Ha), IH.
Qed.

Lemma session_typed (ops : list Operation) : forall st,
  forallb typed_op ops = true ->
  session ops st = dispatch_all (submitted_all ops) st.
Proof.
  induction ops as [ | op ops IH]; intros st H; [reflexivity|].
  cbn [forallb] in H. apply andb_prop in H as [Ht Hr].
  cbn [session submitted_all]. rewrite call_submitted.
  destruct (submitted op) as [a | ] eqn:Ha.
  - cbn [dispatch_all]. destruct (dispatch a st) as [st' | e]; cbn [bind];
      [now apply IH | reflexivity].
  - apply submitted_typed in Ht. contradiction.
Qed.

Lemma session_untyped (ops : list Operation) : forall st,
  forallb typed_op ops = false -> session ops st = Throw TypeError.
Proof.
  induction ops as [ | op ops IH]; intros st H; [discriminate H|].
  cbn [forallb] in H. cbn [session]. rewrite call_submitted.
  destruct (submitted op) as [a | ] eqn:Ha; [|reflexivity].
  assert (Ht : typed_op op = true) by (apply submitted_typed; congruence).
  rewrite Ht in H. cbn [andb] in H.
  unfold dispatch. rewrite (reducer_known st a (submitted_known op a Ha)).
  cbn [bind]. now apply IH.
Qed.

(** X6: calls of the hook's callbacks never reach the [default] branch of
    the reducer.  A run of calls returns the state given by the two folds
    over the actions it submitted when every text call was handed an event,
    and throws a TypeError when one was handed a bare string. *)
Theorem session_never_reaches_default (ops : list Operation) (st : StateType) :
  session ops st
  = if forallb typed_op ops
    then Normal {| count := fold_left count_step (submitted_all ops) (count st);
                   text := fold_left text_step (submitted_all ops) (text st) |}
    else Throw TypeError.
Proof.
  destruct (forallb typed_op ops) eqn:H.
  - rewrite (session_typed ops st H).
    apply dispatch_all_known, submitted_all_known.
  - now apply session_untyped.
Qed.

Lemma session_typed_folds (ops : list Operation) (st : StateType) :
  forallb typed_op ops = true ->
  session ops st
  = Normal {| count := fold_left count_step (submitted_all ops) (count st);
              text := fold_left text_step (submitted_all ops) (text st) |}.
Proof.
  intros H. rewrite (session_typed ops st H).
  apply dispatch_all_known, submitted_all_known.
Qed.

Lemma forallb_filter {A : Type} (p q : A -> bool) (l : list A) :
  forallb p l = true -> forallb p (filter q l) = true.
Proof.
  induction l as [ | a l IH]; [reflexivity|]. cbn [forallb filter].
  intros H. apply andb_prop in H as [Ha Hl].
  destruct (q a); [cbn [forallb]; now rewrite Ha, IH | now apply IH].
Qed.

Lemma submitted_counter_ops (ops : list Operation) :
  submitted_all (filter is_counter_op ops)
  = filter is_counter_action (submitted_all ops).
Proof.
  induction ops as [ | [ | | [ev | str]] ops IH]; cbn; now rewrite ?IH.
Qed.

Lemma submitted_text_ops (ops : list Operation) :
  submitted_all (filter is_text_op ops)
  = filter is_text_action (submitted_all ops).
Proof.
  induction ops as [ | [ | | [ev | str]] ops IH]; cbn; now rewrite ?IH.
Qed.

Lemma useCounter_count (s1 s2 : StateType) :
  count s1 = count s2 ->
  useCounter (Some (useCounterContext s1))
  = useCounter (Some (useCounterContext s2)).
Proof. unfold useCounter. cbn. now intros ->. Qed.

Lemma useCounterText_text (s1 s2 : StateType) :
  text s1 = text s2 ->
  useCounterText (Some (useCounterContext s1))
  = useCounterText (Some (useCounterContext s2)).
Proof. unfold useCounterText. cbn. now intros ->. Qed.

(** X7: after a run of well-typed calls the counter accessor returns what it
    returns after the counter calls of the run alone, and the text accessor
    what it returns after the text calls alone. *)
Theorem views_see_only_their_operations (ops : list Operation) (st : StateType) :
  forallb typed_op ops = true ->
  exists st' st_counter st_text,
    session ops st = Normal st'
    /\ session (filter is_counter_op ops) st = Normal st_counter
    /\ session (filter is_text_op ops) st = Normal st_text
    /\ useCounter (Some (useCounterContext st'))
       = useCounter (Some (useCounterContext st_counter))
    /\ useCounterText (Some (useCounterContext st'))
       = useCounterText (Some (useCounterContext st_text)).
Proof.
  intros H.
  pose proof (session_typed_folds ops st H) as E.
  pose proof (session_typed_folds _ st (forallb_filter _ is_counter_op ops H)) as Ec.
  pose proof (session_typed_folds _ st (forallb_filter _ is_text_op ops H)) as Et.
  eexists. eexists. eexists.
  split; [exact E|]. split; [exact Ec|]. split; [exact Et|]. split.
  - apply useCounter_count. cbn [count].
    now rewrite submitted_counter_ops, <- fold_count_filter.
  - apply useCounterText_text. cbn [text].
    now rewrite submitted_text_ops, <- fold_text_filter.
Qed.

Lemma views_see_only_their_operations_witness :
  exists st' st_counter st_text,
    session [ OpTextInput (ArgEvent {| target := {| value := "ab"%string |} |});
              OpIncrement; OpIncrement;
              OpTextInput (ArgEvent {| target := {| value := "abc"%string |} |});
              OpDecrement ] initState = Normal st'
    /\ session (filter is_counter_op
                  [ OpTextInput (ArgEvent {| target := {| value := "ab"%string |} |});
                    OpIncrement; OpIncrement;
                    OpTextInput (ArgEvent {| target := {| value := "abc"%string |} |});
                    OpDecrement ]) initState = Normal st_counter
    /\ session (filter is_text_op
                  [ OpTextInput (ArgEvent {| target := {| value := "ab"%string |} |});
                    OpIncrement; OpIncrement;
                    OpTextInput (ArgEvent {| target := {| value := "abc"%string |} |});
                    OpDecrement ]) initState = Normal st_text
    /\ useCounter (Some (useCounterContext st'))
       = useCounter (Some (useCounterContext st_counter))
    /\ useCounterText (Some (useCounterContext st'))
       = useCounterText (Some (useCounterContext st_text)).
Proof.
  exact (views_see_only_their_operations
           [ OpTextInput (ArgEvent {| target := {| value := "ab"%string |} |});
             OpIncrement; OpIncrement;
             OpTextInput (ArgEvent {| target := {| value := "abc"%string |} |});
             OpDecrement ] initState eq_refl).
Defined.
